(** * LlamaHub retriever packs: wiring of the hybrid-fusion and the
      small-to-big recursive retriever packs

    The two packs are thin constructors over a retrieval framework.  The
    framework objects they build are kept as configuration records carrying
    an object identity; the services behind them (chunking, search, fusion,
    query generation, synthesis) are the fields of a type class, so every
    statement below holds for any implementation of those services.  A
    constructor of the framework that rejects its arguments raises, and the
    code that calls it runs in the state-and-exception monad [ME]. *)

From stdpp Require Import base gmap list strings pretty.
From Stdlib Require Import ZArith.

(** ** Chunks *)

(** Everything a chunk carries besides its identifier (text, metadata,
    relationships); the packs never look inside. *)
Class NodeContent := { Payload : Type }.

Section Schema.
Context {NC : NodeContent}.

(** Modelled from the spec: the framework's TextNode (a TextChunk with a
    unique identifier and its content); only the field [id_] is touched by
    the packs. *)
Record TextNode := { id_ : string; content : Payload }.

(** A Document is a TextNode for the splitter: the small-to-big pack feeds
    parent chunks back into [get_nodes_from_documents]. *)
Definition Document := TextNode.

(** [node.id_ = s] *)
Definition set_id (n : TextNode) (s : string) : TextNode :=
  {| id_ := s; content := content n |}.

(** Modelled from the spec: the framework's IndexNode, "a TextChunk
    augmented with a reference identifier pointing to another node". *)
Record IndexNode := { text_node : TextNode; index_id : string }.

(** [n.node_id] *)
Definition node_id (n : IndexNode) : string := id_ (text_node n).

(** Modelled from the spec: [IndexNode.from_text_node(node, index_id)], the
    chunk itself (identifier included) with the reference added. *)
Definition from_text_node (n : TextNode) (index_id : string) : IndexNode :=
  {| text_node := n; index_id := index_id |}.

(** What an index stores: plain chunks (hybrid pack) or chunks with a
    reference (small-to-big pack). *)
Inductive Node :=
  | NText (n : TextNode)
  | NIndex (n : IndexNode).

(** ** Framework objects, as configured by their constructors *)

Definition oid := nat.

Record SentenceSplitter := { splitter_oid : oid; chunk_size : Z }.
Record EmbedModel := { embed_oid : oid; embed_name : string }.
Record LLM := { llm_oid : oid; llm_model : string }.

Record ServiceContext := {
  sc_oid : oid;
  sc_chunk_size : option Z;
  sc_llm : option LLM;
  sc_embed_model : option EmbedModel }.

Record VectorStoreIndex := {
  index_oid : oid;
  index_nodes : list Node;
  index_service_context : ServiceContext }.

(** [index.docstore]: the chunk store owned by an index. *)
Inductive DocStore :=
  | docstore (index : VectorStoreIndex).

Definition docstore_nodes (d : DocStore) : list Node :=
  match d with docstore index => index_nodes index end.

Inductive BaseRetriever :=
  | VectorIndexRetriever (o : oid) (index : VectorStoreIndex) (similarity_top_k : Z)
  | BM25Retriever (o : oid) (store : DocStore) (similarity_top_k : Z).

Definition similarity_top_k (r : BaseRetriever) : Z :=
  match r with
  | VectorIndexRetriever _ _ k => k
  | BM25Retriever _ _ k => k
  end.

Record QueryFusionRetriever := {
  fusion_oid : oid;
  fusion_retrievers : list BaseRetriever;
  fusion_top_k : Z;
  fusion_num_queries : Z;
  fusion_mode : string;
  fusion_use_async : bool;
  fusion_verbose : bool }.

Record RecursiveRetriever := {
  recursive_oid : oid;
  root_id : string;
  retriever_dict : gmap string BaseRetriever;
  node_dict : gmap string IndexNode;
  recursive_verbose : bool }.

Inductive Retriever :=
  | RFusion (r : QueryFusionRetriever)
  | RRecursive (r : RecursiveRetriever).

Record RetrieverQueryEngine := {
  engine_oid : oid;
  engine_retriever : Retriever;
  engine_service_context : option ServiceContext }.

(** Every object a constructor call of the framework creates. *)
Inductive obj :=
  | OSplitter (o : SentenceSplitter)
  | OEmbedModel (o : EmbedModel)
  | OLLM (o : LLM)
  | OServiceContext (o : ServiceContext)
  | OIndex (o : VectorStoreIndex)
  | OBaseRetriever (o : BaseRetriever)
  | OFusion (o : QueryFusionRetriever)
  | ORecursive (o : RecursiveRetriever)
  | OEngine (o : RetrieverQueryEngine).
End Schema.

(** ** The services of the framework

    None of them is implemented in this repository. *)
Class Framework {NC : NodeContent} := {
  (** identifier generator, language model, network *)
  Ext : Type;
  (** a value passed as an extra keyword argument *)
  Any : Type;
  (** positional and keyword arguments of [query] *)
  QueryArgs : Type;
  Response : Type;
  (** [SentenceSplitter(chunk_size=c).get_nodes_from_documents(docs)]: the
      chunks get fresh identifiers drawn from the external state *)
  split_nodes : Z → list Document → Ext → list TextNode * Ext;
  (** dense and lexical ranking of a chunk store for a query *)
  vector_search : VectorStoreIndex → string → list Node;
  bm25_search : DocStore → string → list Node;
  (** query reformulation by the language model *)
  generate_queries : string → Z → Ext → list string * Ext;
  (** the rank-fusion rule selected by [mode] *)
  fuse : string → list (list Node) → list Node;
  query_str : QueryArgs → string;
  synthesize : option ServiceContext → QueryArgs → list Node → Ext → Response * Ext }.

Section Runtime.
Context {NC : NodeContent} {FW : Framework}.

(** ** State: the objects built so far and the external services *)

Record World := { objs : list obj; next_oid : oid; ext : Ext }.

Definition M (A : Type) : Type := World → A * World.

#[global] Instance M_ret : MRet M := λ A a w, (a, w).
#[global] Instance M_bind : MBind M :=
  λ A B f m w, let '(a, w') := m w in f a w'.

(** A constructor call: the new object gets the next identity. *)
Definition construct {A} (mk : oid → A) (inj : A → obj) : M A :=
  λ w, let a := mk (next_oid w) in
       (a, {| objs := objs w ++ [inj a]; next_oid := S (next_oid w); ext := ext w |}).

(** A call into an external service. *)
Definition call {A} (f : Ext → A * Ext) : M A :=
  λ w, let '(a, e) := f (ext w) in
       (a, {| objs := objs w; next_oid := next_oid w; ext := e |}).

(** ** Exceptions

    A raised exception ends the computation; the objects built before it
    stay in the store. *)

Inductive exn :=
  | ValueError (chunk_overlap chunk_size : Z).

Inductive result (A : Type) :=
  | Ok (a : A)
  | Raise (e : exn).
#[global] Arguments Ok {A} a.
#[global] Arguments Raise {A} e.

Definition ME (A : Type) : Type := World → result A * World.

#[global] Instance ME_ret : MRet ME := λ A a w, (Ok a, w).
#[global] Instance ME_bind : MBind ME :=
  λ A B f m w,
    match m w with
    | (Ok a, w') => f a w'
    | (Raise e, w') => (Raise e, w')
    end.

Definition raise {A} (e : exn) : ME A := λ w, (Raise e, w).

(** A computation that cannot raise, inside one that can. *)
Definition lift {A} (m : M A) : ME A :=
  λ w, let '(a, w') := m w in (Ok a, w').

(** [[f(a) for a in l]] *)
Fixpoint mapM_ {A B} (f : A → ME B) (l : list A) : ME (list B) :=
  match l with
  | [] => mret []
  | a :: l => b ← f a; bs ← mapM_ f l; mret (b :: bs)
  end.

Fixpoint foldM {A B} (f : B → A → M B) (b : B) (l : list A) : M B :=
  match l with
  | [] => mret b
  | a :: l => b' ← f b a; foldM f b' l
  end.

(** ** Constructors and methods of the framework used by the packs *)

(** The chunk overlap [SentenceSplitter] takes when none is given. *)
Definition DEFAULT_CHUNK_OVERLAP : Z := 200.

(** Modelled from the framework's behaviour, the framework being no part of
    this repository: [SentenceSplitter(chunk_size=c)], called without a chunk
    overlap, takes the default overlap and raises [ValueError] when that
    overlap is larger than the chunk size. *)
Definition new_SentenceSplitter (c : Z) : ME SentenceSplitter :=
  if decide (c < DEFAULT_CHUNK_OVERLAP)%Z
  then raise (ValueError DEFAULT_CHUNK_OVERLAP c)
  else lift (construct (λ o, {| splitter_oid := o; chunk_size := c |}) OSplitter).

Definition get_nodes_from_documents (p : SentenceSplitter) (docs : list Document)
  : M (list TextNode) :=
  call (split_nodes (chunk_size p) docs).

Definition resolve_embed_model (name : string) : M EmbedModel :=
  construct (λ o, {| embed_oid := o; embed_name := name |}) OEmbedModel.

Definition new_OpenAI (model : string) : M LLM :=
  construct (λ o, {| llm_oid := o; llm_model := model |}) OLLM.

Definition ServiceContext_from_defaults
    (c : option Z) (llm : option LLM) (em : option EmbedModel) : M ServiceContext :=
  construct (λ o, {| sc_oid := o; sc_chunk_size := c; sc_llm := llm;
                     sc_embed_model := em |}) OServiceContext.

Definition new_VectorStoreIndex (nodes : list Node) (sc : ServiceContext)
  : M VectorStoreIndex :=
  construct (λ o, {| index_oid := o; index_nodes := nodes;
                     index_service_context := sc |}) OIndex.

Definition as_retriever (index : VectorStoreIndex) (k : Z) : M BaseRetriever :=
  construct (λ o, VectorIndexRetriever o index k) OBaseRetriever.

Definition BM25Retriever_from_defaults (d : DocStore) (k : Z) : M BaseRetriever :=
  construct (λ o, BM25Retriever o d k) OBaseRetriever.

Definition new_QueryFusionRetriever (rs : list BaseRetriever)
    (k n : Z) (mode : string) (use_async verbose : bool) : M QueryFusionRetriever :=
  construct (λ o, {| fusion_oid := o; fusion_retrievers := rs;
                     fusion_top_k := k; fusion_num_queries := n;
                     fusion_mode := mode; fusion_use_async := use_async;
                     fusion_verbose := verbose |}) OFusion.

Definition new_RecursiveRetriever (root : string)
    (rd : gmap string BaseRetriever) (nd : gmap string IndexNode) (verbose : bool)
  : M RecursiveRetriever :=
  construct (λ o, {| recursive_oid := o; root_id := root; retriever_dict := rd;
                     node_dict := nd; recursive_verbose := verbose |}) ORecursive.

Definition RetrieverQueryEngine_from_args (r : Retriever) (sc : option ServiceContext)
  : M RetrieverQueryEngine :=
  construct (λ o, {| engine_oid := o; engine_retriever := r;
                     engine_service_context := sc |}) OEngine.

(** ** What the framework's retrievers and query engine return *)

(** Modelled from the spec: a retriever over a chunk store, which "given a
    query string, produces a ranked sequence of scored chunks", cut at the
    top-k fixed at construction. *)
Definition base_retrieve (r : BaseRetriever) (q : string) : list Node :=
  match r with
  | VectorIndexRetriever _ index k => take (Z.to_nat k) (vector_search index q)
  | BM25Retriever _ d k => take (Z.to_nat k) (bm25_search d q)
  end.

(** Modelled from the spec: the fusion retriever, which "generates
    num_queries reformulated queries per input query, issues all of them
    against both retrievers, and merges hits by the fusion rule; setting
    num_queries = 1 disables reformulation", cut at its own top-k. *)
Definition fusion_queries (f : QueryFusionRetriever) (q : string) : M (list string) :=
  if decide (fusion_num_queries f = 1%Z) then mret [q]
  else call (generate_queries q (fusion_num_queries f)).

Definition fusion_retrieve (f : QueryFusionRetriever) (q : string) : M (list Node) :=
  queries ← fusion_queries f q;
  let results :=
    concat ((λ q', (λ r, base_retrieve r q') <$> fusion_retrievers f) <$> queries) in
  mret (take (Z.to_nat (fusion_top_k f)) (fuse (fusion_mode f) results)).

(** Modelled from the spec: the recursive retriever, which "on each
    child-chunk hit, follows the parent reference and substitutes the parent
    chunk into the result set", and returns the child as it is when the
    reference is absent from the node mapping. *)
Definition resolve (nd : gmap string IndexNode) (n : Node) : Node :=
  match n with
  | NIndex c => match nd !! index_id c with Some p => NIndex p | None => n end
  | NText _ => n
  end.

Definition recursive_retrieve (r : RecursiveRetriever) (q : string) : list Node :=
  match retriever_dict r !! root_id r with
  | Some b => resolve (node_dict r) <$> base_retrieve b q
  | None => []
  end.

Definition retriever_retrieve (r : Retriever) (q : string) : M (list Node) :=
  match r with
  | RFusion f => fusion_retrieve f q
  | RRecursive r => mret (recursive_retrieve r q)
  end.

(** Modelled from the spec: the query engine, which "composes a retriever
    with a synthesis step". *)
Definition engine_query (e : RetrieverQueryEngine) (args : QueryArgs) : M Response :=
  nodes ← retriever_retrieve (engine_retriever e) (query_str args);
  call (synthesize (engine_service_context e) args nodes).
End Runtime.

(** ** hybrid_fusion/base.py *)

Module HybridFusion.
Section Pack.
Context {NC : NodeContent} {FW : Framework}.

(** The attributes [__init__] sets on [self]. *)
Record HybridFusionRetrieverPack := {
  vector_retriever : BaseRetriever;
  bm25_retriever : BaseRetriever;
  fusion_retriever : QueryFusionRetriever;
  query_engine : RetrieverQueryEngine }.

Definition __init__ (nodes : list TextNode) (chunk_size : Z) (mode : string)
    (vector_similarity_top_k bm25_similarity_top_k fusion_similarity_top_k : Z)
    (num_queries : Z) (kwargs : gmap string Any) : M HybridFusionRetrieverPack :=
  service_context ← ServiceContext_from_defaults (Some chunk_size) None None;
  index ← new_VectorStoreIndex (NText <$> nodes) service_context;
  vector_retriever ← as_retriever index vector_similarity_top_k;
  bm25_retriever ←
    BM25Retriever_from_defaults (docstore index) bm25_similarity_top_k;
  fusion_retriever ←
    new_QueryFusionRetriever [vector_retriever; bm25_retriever]
      fusion_similarity_top_k num_queries mode true true;
  query_engine ← RetrieverQueryEngine_from_args (RFusion fusion_retriever) None;
  mret {| vector_retriever := vector_retriever;
          bm25_retriever := bm25_retriever;
          fusion_retriever := fusion_retriever;
          query_engine := query_engine |}.

(** The keyword defaults of the signature. *)
Definition __init__defaults (nodes : list TextNode) : M HybridFusionRetrieverPack :=
  __init__ nodes 256 "reciprocal_rerank" 2 2 2 4 ∅.

(** A method receives [self] and hands it back, together with its result. *)
Definition get_modules (self : HybridFusionRetrieverPack)
  : M (gmap string obj * HybridFusionRetrieverPack) :=
  mret (<["query_engine" := OEngine (query_engine self)]>
        (<["fusion_retriever" := OFusion (fusion_retriever self)]>
         (<["bm25_retriever" := OBaseRetriever (bm25_retriever self)]>
          (<["vector_retriever" := OBaseRetriever (vector_retriever self)]> ∅))),
        self).

Definition retrieve (self : HybridFusionRetrieverPack) (query_str : string)
  : M (list Node * HybridFusionRetrieverPack) :=
  r ← fusion_retrieve (fusion_retriever self) query_str;
  mret (r, self).

Definition run (self : HybridFusionRetrieverPack) (args : QueryArgs)
  : M (Response * HybridFusionRetrieverPack) :=
  r ← engine_query (query_engine self) args;
  mret (r, self).
End Pack.
End HybridFusion.

(** ** small_to_big/base.py *)

Module SmallToBig.
Section Pack.
Context {NC : NodeContent} {FW : Framework}.

Record RecursiveRetrieverSmallToBigPack := {
  node_parser : SentenceSplitter;
  embed_model : EmbedModel;
  llm : LLM;
  service_context : ServiceContext;
  vector_index_chunk : VectorStoreIndex;
  recursive_retriever : RecursiveRetriever;
  query_engine : RetrieverQueryEngine }.

(** [for idx, node in enumerate(base_nodes): node.id_ = f"node-{idx}"] *)
Definition assign_ids (base_nodes : list TextNode) : list TextNode :=
  imap (λ idx node, set_id node ("node-" +:+ pretty idx)) base_nodes.

(** The first statements of [__init__]: the parent splitter and the parent
    chunks with their identifiers set. *)
Definition parent_chunks (docs : list Document)
  : ME (SentenceSplitter * list TextNode) :=
  node_parser ← new_SentenceSplitter 1024;
  base_nodes ← lift (get_nodes_from_documents node_parser docs);
  mret (node_parser, assign_ids base_nodes).

Definition sub_chunk_sizes : list Z := [128; 256; 512]%Z.

(** The nested loops that fill [all_nodes]: the body of the inner loop
    (one sub-splitter [n] applied to one parent), the body of the outer loop
    (one parent), and the loops themselves. *)
Definition link_parser (base_node : TextNode)
    (all_nodes : list IndexNode) (n : SentenceSplitter) : M (list IndexNode) :=
  sub_nodes ← get_nodes_from_documents n [base_node];
  let sub_inodes := (λ sn, from_text_node sn (id_ base_node)) <$> sub_nodes in
  mret (all_nodes ++ sub_inodes).

Definition link_base (sub_node_parsers : list SentenceSplitter)
    (all_nodes : list IndexNode) (base_node : TextNode) : M (list IndexNode) :=
  all_nodes ← foldM (link_parser base_node) all_nodes sub_node_parsers;
  let original_node := from_text_node base_node (id_ base_node) in
  mret (all_nodes ++ [original_node]).

Definition link_sub_nodes (sub_node_parsers : list SentenceSplitter)
    (base_nodes : list TextNode) : M (list IndexNode) :=
  foldM (link_base sub_node_parsers) [] base_nodes.

(** [{n.node_id: n for n in all_nodes}] *)
Definition nodes_dict (all_nodes : list IndexNode) : gmap string IndexNode :=
  foldl (λ d n, <[node_id n := n]> d) ∅ all_nodes.

(** The last statements of [__init__]: the dict comprehension and, under
    the comment "define recursive retriever", the flat index, its retriever,
    the recursive retriever and the query engine. *)
Definition define_recursive_retriever (all_nodes : list IndexNode)
    (service_context : ServiceContext)
  : M (VectorStoreIndex * RecursiveRetriever * RetrieverQueryEngine) :=
  let all_nodes_dict := nodes_dict all_nodes in
  vector_index_chunk ← new_VectorStoreIndex (NIndex <$> all_nodes) service_context;
  vector_retriever_chunk ← as_retriever vector_index_chunk 2;
  recursive_retriever ←
    new_RecursiveRetriever "vector" {["vector" := vector_retriever_chunk]}
      all_nodes_dict true;
  query_engine ←
    RetrieverQueryEngine_from_args (RRecursive recursive_retriever)
      (Some service_context);
  mret (vector_index_chunk, recursive_retriever, query_engine).

Definition __init__ (docs : list Document) (kwargs : gmap string Any)
  : ME RecursiveRetrieverSmallToBigPack :=
  '(node_parser, base_nodes) ← parent_chunks docs;
  embed_model ← lift (resolve_embed_model "local:BAAI/bge-small-en");
  llm ← lift (new_OpenAI "gpt-3.5-turbo");
  service_context ←
    lift (ServiceContext_from_defaults None (Some llm) (Some embed_model));
  sub_node_parsers ← mapM_ new_SentenceSplitter sub_chunk_sizes;
  all_nodes ← lift (link_sub_nodes sub_node_parsers base_nodes);
  '(vector_index_chunk, recursive_retriever, query_engine) ←
    lift (define_recursive_retriever all_nodes service_context);
  mret {| node_parser := node_parser;
          embed_model := embed_model;
          llm := llm;
          service_context := service_context;
          vector_index_chunk := vector_index_chunk;
          recursive_retriever := recursive_retriever;
          query_engine := query_engine |}.

Definition get_modules (self : RecursiveRetrieverSmallToBigPack)
  : M (gmap string obj * RecursiveRetrieverSmallToBigPack) :=
  mret (<["service_context" := OServiceContext (service_context self)]>
        (<["embed_model" := OEmbedModel (embed_model self)]>
         (<["llm" := OLLM (llm self)]>
          (<["recursive_retriever" := ORecursive (recursive_retriever self)]>
           (<["query_engine" := OEngine (query_engine self)]> ∅)))),
        self).

Definition run (self : RecursiveRetrieverSmallToBigPack) (args : QueryArgs)
  : M (Response * RecursiveRetrieverSmallToBigPack) :=
  r ← engine_query (query_engine self) args;
  mret (r, self).
End Pack.
End SmallToBig.

(** ** Reading the object store *)

Section Observations.
Context {NC : NodeContent} {FW : Framework}.

(** The objects constructed between two states. *)
Definition built (w w' : World) : list obj := drop (length (objs w)) (objs w').

Definition indexes (l : list obj) : list VectorStoreIndex :=
  omap (λ o, match o with OIndex i => Some i | _ => None end) l.

Definition lexical_retrievers (l : list obj) : list BaseRetriever :=
  omap (λ o, match o with
             | OBaseRetriever (BM25Retriever o d k) => Some (BM25Retriever o d k)
             | _ => None
             end) l.

Definition vector_retrievers (l : list obj) : list BaseRetriever :=
  omap (λ o, match o with
             | OBaseRetriever (VectorIndexRetriever o i k) =>
                 Some (VectorIndexRetriever o i k)
             | _ => None
             end) l.

Definition fusion_retrievers_built (l : list obj) : list QueryFusionRetriever :=
  omap (λ o, match o with OFusion f => Some f | _ => None end) l.

Definition splitter_sizes (l : list obj) : list Z :=
  omap (λ o, match o with OSplitter p => Some (chunk_size p) | _ => None end) l.

(** The nodes one parent contributes to the flat index: its sub-chunks,
    granularity by granularity, then the parent itself, all of them referring
    to the parent's identifier. *)
Definition family (b : TextNode) (chunks : list (list TextNode)) : list IndexNode :=
  concat ((λ ch : list TextNode, (λ sn, from_text_node sn (id_ b)) <$> ch) <$> chunks)
    ++ [from_text_node b (id_ b)].

(** [chunks] are results of splitting [b] at the sizes [cs], one per size. *)
Definition splits_of (cs : list Z) (b : TextNode) (chunks : list (list TextNode)) : Prop :=
  Forall2 (λ c ch, ∃ e, ch = (split_nodes c [b] e).1) cs chunks.

(** The accessor of the small-to-big pack as the spec words it: handles to
    a vector retriever, a lexical retriever, the recursive retriever, the
    query engine, the LLM client, the embedding client and the context. *)
Definition exposes_vector_retriever (d : gmap string obj) : Prop :=
  ∃ k o i n, d !! k = Some (OBaseRetriever (VectorIndexRetriever o i n)).
Definition exposes_lexical_retriever (d : gmap string obj) : Prop :=
  ∃ k o s n, d !! k = Some (OBaseRetriever (BM25Retriever o s n)).
Definition modules_as_worded (self : SmallToBig.RecursiveRetrieverSmallToBigPack)
    (d : gmap string obj) : Prop :=
  exposes_vector_retriever d ∧ exposes_lexical_retriever d
  ∧ (∃ k, d !! k = Some (ORecursive (SmallToBig.recursive_retriever self)))
  ∧ (∃ k, d !! k = Some (OEngine (SmallToBig.query_engine self)))
  ∧ (∃ k, d !! k = Some (OLLM (SmallToBig.llm self)))
  ∧ (∃ k, d !! k = Some (OEmbedModel (SmallToBig.embed_model self)))
  ∧ (∃ k, d !! k = Some (OServiceContext (SmallToBig.service_context self))).
End Observations.

(** ** A small implementation of the services, to run the packs on *)

Module Toy.
#[local] Instance text : NodeContent := {| Payload := string |}.

(** Pieces of [c] characters (at least one character each). *)
Definition pieces (c : nat) (s : string) : list string :=
  let c := Nat.max 1 c in
  (λ i, String.substring (i * c) c s) <$> seq 0 ((String.length s + c - 1) / c).

(** Chunks of all documents, numbered from the counter [e]. *)
Definition split (c : Z) (docs : list (@Document text)) (e : nat)
  : list (@TextNode text) * nat :=
  let texts := concat ((λ d, pieces (Z.to_nat c) (@content text d)) <$> docs) in
  (imap (λ i t, @Build_TextNode text ("uuid-" +:+ pretty (e + i)) t) texts,
   e + length texts).

#[local] Instance services : @Framework text :=
  {| Ext := nat;
     Any := string;
     QueryArgs := string;
     Response := list (@Node text);
     split_nodes := split;
     vector_search := λ index _, index_nodes index;
     bm25_search := λ d _, reverse (docstore_nodes d);
     generate_queries := λ q n e,
       ((λ i, q +:+ " #" +:+ pretty (e + i)) <$> seq 0 (Z.to_nat n), S e);
     fuse := λ _ ls, concat ls;
     query_str := λ q, q;
     synthesize := λ _ _ nodes e, (nodes, e) |}.

Definition w0 : @World text services := @Build_World text services [] 0 0.

Definition doc (name body : string) : @Document text :=
  @Build_TextNode text name body.

(** 520 characters: one parent chunk, cut in 3 sub-chunks of at most 256
    characters and in 2 of at most 512. *)
Definition long_text : string :=
  String.concat "" (replicate 40 "small to big ").

Definition docs : list (@Document text) :=
  [doc "a" long_text; doc "b" "second document"].

(** An attempt to override the fan-out through a keyword argument. *)
Definition override : gmap string string := {["similarity_top_k" := "10"]}.

(** Two sub-splitters of sizes the framework accepts, two parent chunks as
    [parent_chunks] leaves them, and the state they are linked in. *)
Definition parsers : list SentenceSplitter :=
  [{| splitter_oid := 4; chunk_size := 256 |};
   {| splitter_oid := 5; chunk_size := 512 |}].

Definition parents : list (@TextNode text) :=
  SmallToBig.assign_ids [doc "uuid-0" long_text; doc "uuid-1" "second document"].

Definition w6 : @World text services := @Build_World text services [] 6 2.

Definition context : ServiceContext :=
  {| sc_oid := 3; sc_chunk_size := None;
     sc_llm := Some {| llm_oid := 2; llm_model := "gpt-3.5-turbo" |};
     sc_embed_model :=
       Some {| embed_oid := 1; embed_name := "local:BAAI/bge-small-en" |} |}.

(** A pack object with its seven attributes set. *)
Definition pack : @SmallToBig.RecursiveRetrieverSmallToBigPack text :=
  let linked := SmallToBig.link_sub_nodes parsers parents w6 in
  let graph := (SmallToBig.define_recursive_retriever linked.1 context linked.2).1 in
  {| SmallToBig.node_parser := {| splitter_oid := 0; chunk_size := 1024 |};
     SmallToBig.embed_model := {| embed_oid := 1; embed_name := "local:BAAI/bge-small-en" |};
     SmallToBig.llm := {| llm_oid := 2; llm_model := "gpt-3.5-turbo" |};
     SmallToBig.service_context := context;
     SmallToBig.vector_index_chunk := graph.1.1;
     SmallToBig.recursive_retriever := graph.1.2;
     SmallToBig.query_engine := graph.2 |}.
End Toy.

(** * Properties *)

Section Loops.
Context {NC : NodeContent} {FW : Framework}.
Import SmallToBig.

Lemma bind_run {A B} (m : M A) (k : A → M B) (w : World) :
  (m ≫= k) w = let '(a, w') := m w in k a w'.
Proof. reflexivity. Qed.

Lemma construct_run {A} (mk : oid → A) (inj : A → obj) (w : World) :
  construct mk inj w =
    (mk (next_oid w),
     {| objs := objs w ++ [inj (mk (next_oid w))]; next_oid := S (next_oid w);
        ext := ext w |}).
Proof. reflexivity. Qed.

Lemma built_app (w w' : World) (l : list obj) :
  objs w' = objs w ++ l → built w w' = l.
Proof. unfold built. intros ->. by rewrite drop_app_length. Qed.

(** A call into a service builds no object. *)
Lemma call_objs {A} (f : Ext → A * Ext) (w : World) :
  objs (call f w).2 = objs w.
Proof. unfold call. by destruct (f (ext w)). Qed.

(** The identifiers written by the enumeration, from any starting index. *)
Lemma imap_set_id_lookup (g : nat → string) (l : list TextNode) (i : nat) (n : TextNode) :
  imap (λ idx node, set_id node (g idx)) l !! i = Some n →
  id_ n = g i ∧ ∃ n0, l !! i = Some n0 ∧ content n = content n0.
Proof.
  rewrite list_lookup_imap. destruct (l !! i) as [n0|] eqn:E; simpl; [|done].
  intros [= <-]. eauto.
Qed.

Lemma foldM_cons {A B} (f : B → A → M B) (b : B) (a : A) (l : list A) (w : World) :
  foldM f b (a :: l) w = foldM f (f b a w).1 l (f b a w).2.
Proof. simpl. rewrite bind_run. by destruct (f b a w). Qed.

Lemma link_parser_run (b : TextNode) (acc : list IndexNode)
    (p : SentenceSplitter) (w : World) :
  link_parser b acc p w =
    (acc ++ ((λ sn, from_text_node sn (id_ b)) <$> (split_nodes (chunk_size p) [b] (ext w)).1),
     {| objs := objs w; next_oid := next_oid w;
        ext := (split_nodes (chunk_size p) [b] (ext w)).2 |}).
Proof.
  unfold link_parser, get_nodes_from_documents. rewrite bind_run. unfold call.
  by destruct (split_nodes (chunk_size p) [b] (ext w)).
Qed.

Lemma link_base_run (ps : list SentenceSplitter) (acc : list IndexNode)
    (b : TextNode) (w : World) :
  link_base ps acc b w =
    ((foldM (link_parser b) acc ps w).1 ++ [from_text_node b (id_ b)],
     (foldM (link_parser b) acc ps w).2).
Proof.
  unfold link_base. rewrite bind_run.
  by destruct (foldM (link_parser b) acc ps w).
Qed.

(** The inner loop: one list of sub-chunks per sub-splitter, appended in
    order, each wrapped with the parent's identifier. *)
Lemma link_parser_loop (b : TextNode) (ps : list SentenceSplitter)
    (acc : list IndexNode) (w : World) :
  ∃ chunks,
    (foldM (link_parser b) acc ps w).1 =
      acc ++ concat ((λ ch : list TextNode, (λ sn, from_text_node sn (id_ b)) <$> ch) <$> chunks)
    ∧ splits_of (chunk_size <$> ps) b chunks
    ∧ objs (foldM (link_parser b) acc ps w).2 = objs w
    ∧ next_oid (foldM (link_parser b) acc ps w).2 = next_oid w.
Proof.
  revert acc w. induction ps as [|p ps IH]; intros acc w.
  - exists []. simpl. rewrite app_nil_r. repeat split. constructor.
  - destruct (IH (link_parser b acc p w).1 (link_parser b acc p w).2)
      as (chunks & Hn & Hs & Ho & Hi).
    exists ((split_nodes (chunk_size p) [b] (ext w)).1 :: chunks).
    rewrite foldM_cons, Hn, Ho, Hi, link_parser_run. simpl. rewrite <-app_assoc.
    repeat split. constructor; [|done]. by exists (ext w).
Qed.

(** The outer loop: one family per parent, in the order of the parents. *)
Lemma link_base_loop (ps : list SentenceSplitter) (bs : list TextNode)
    (acc : list IndexNode) (w : World) :
  ∃ groups,
    (foldM (link_base ps) acc bs w).1 = acc ++ concat (zip_with family bs groups)
    ∧ Forall2 (splits_of (chunk_size <$> ps)) bs groups
    ∧ objs (foldM (link_base ps) acc bs w).2 = objs w
    ∧ next_oid (foldM (link_base ps) acc bs w).2 = next_oid w.
Proof.
  revert acc w. induction bs as [|b bs IH]; intros acc w.
  - exists []. simpl. rewrite app_nil_r. repeat split. constructor.
  - destruct (link_parser_loop b ps acc w) as (chunks & Hc & Hs & Hco & Hci).
    destruct (IH (link_base ps acc b w).1 (link_base ps acc b w).2)
      as (groups & Hn & Hg & Ho & Hi).
    exists (chunks :: groups).
    rewrite foldM_cons, Hn, Ho, Hi, link_base_run. simpl. rewrite Hc, Hco, Hci.
    unfold family at 2. rewrite <-!app_assoc. repeat split. by constructor.
Qed.
End Loops.

Section SmallToBigRun.
Context {NC : NodeContent} {FW : Framework}.
Import SmallToBig.

Lemma new_SentenceSplitter_ok (c : Z) (w : World) :
  (DEFAULT_CHUNK_OVERLAP ≤ c)%Z →
  new_SentenceSplitter c w =
    (Ok {| splitter_oid := next_oid w; chunk_size := c |},
     {| objs := objs w ++ [OSplitter {| splitter_oid := next_oid w; chunk_size := c |}];
        next_oid := S (next_oid w); ext := ext w |}).
Proof. intros Hc. unfold new_SentenceSplitter. case_decide; [lia | done]. Qed.

Lemma new_SentenceSplitter_raises (c : Z) (w : World) :
  (c < DEFAULT_CHUNK_OVERLAP)%Z →
  new_SentenceSplitter c w = (Raise (ValueError DEFAULT_CHUNK_OVERLAP c), w).
Proof. intros Hc. unfold new_SentenceSplitter. case_decide; [done | lia]. Qed.

(** The first statements of the constructor always succeed. *)
Lemma parent_chunks_run (docs : list Document) (w : World) :
  parent_chunks docs w =
    (Ok ({| splitter_oid := next_oid w; chunk_size := 1024 |},
         assign_ids (split_nodes 1024 docs (ext w)).1),
     {| objs := objs w ++ [OSplitter {| splitter_oid := next_oid w; chunk_size := 1024 |}];
        next_oid := S (next_oid w);
        ext := (split_nodes 1024 docs (ext w)).2 |}).
Proof.
  unfold parent_chunks, mbind, ME_bind.
  rewrite new_SentenceSplitter_ok by (unfold DEFAULT_CHUNK_OVERLAP; lia).
  unfold lift, get_nodes_from_documents, call. simpl.
  by destruct (split_nodes 1024 docs (ext w)).
Qed.

(** The nested loops, from any list of constructed sub-splitters: one
    family per parent, in the order of the parents, and no object built. *)
Lemma link_sub_nodes_run (ps : list SentenceSplitter) (bs : list TextNode)
    (w : World) :
  ∃ groups,
    (link_sub_nodes ps bs w).1 = concat (zip_with family bs groups)
    ∧ Forall2 (splits_of (chunk_size <$> ps)) bs groups
    ∧ objs (link_sub_nodes ps bs w).2 = objs w
    ∧ next_oid (link_sub_nodes ps bs w).2 = next_oid w.
Proof. apply (link_base_loop ps bs [] w). Qed.

(** The last statements of the constructor, from any list of nodes. *)
Lemma define_recursive_retriever_run (all_nodes : list IndexNode)
    (sc : ServiceContext) (w : World) :
  let n := next_oid w in
  let idx := {| index_oid := n; index_nodes := NIndex <$> all_nodes;
                index_service_context := sc |} in
  let vr := VectorIndexRetriever (1 + n) idx 2 in
  let rr := {| recursive_oid := 2 + n; root_id := "vector";
               retriever_dict := {["vector" := vr]};
               node_dict := nodes_dict all_nodes; recursive_verbose := true |} in
  let qe := {| engine_oid := 3 + n; engine_retriever := RRecursive rr;
               engine_service_context := Some sc |} in
  define_recursive_retriever all_nodes sc w =
    ((idx, rr, qe),
     {| objs := objs w ++ [OIndex idx; OBaseRetriever vr; ORecursive rr; OEngine qe];
        next_oid := 4 + n; ext := ext w |}).
Proof.
  unfold define_recursive_retriever, mbind, M_bind, mret, M_ret. simpl.
  by rewrite <-!app_assoc.
Qed.

(** The whole constructor, run symbolically: after the parent splitter, the
    embedding model, the LLM and the service context, the first sub-splitter
    is refused and the exception leaves the constructor. *)
Lemma small_to_big_init_run (docs : list Document) (kwargs : gmap string Any)
    (w : World) :
  let n := next_oid w in
  let np := {| splitter_oid := n; chunk_size := 1024 |} in
  let em := {| embed_oid := 1 + n; embed_name := "local:BAAI/bge-small-en" |} in
  let lm := {| llm_oid := 2 + n; llm_model := "gpt-3.5-turbo" |} in
  let sc := {| sc_oid := 3 + n; sc_chunk_size := None; sc_llm := Some lm;
               sc_embed_model := Some em |} in
  __init__ docs kwargs w =
    (Raise (ValueError 200 128),
     {| objs := objs w ++ [OSplitter np; OEmbedModel em; OLLM lm; OServiceContext sc];
        next_oid := 4 + n;
        ext := (split_nodes 1024 docs (ext w)).2 |}).
Proof.
  unfold __init__. unfold mbind at 1. unfold ME_bind at 1.
  rewrite parent_chunks_run.
  unfold mbind, ME_bind, lift, mret, ME_ret. simpl.
  by rewrite <-!app_assoc.
Qed.
End SmallToBigRun.

Section SmallToBigFacts.
Context {NC : NodeContent} {FW : Framework}.
Import SmallToBig.

Lemma family_index_id (b : TextNode) (chunks : list (list TextNode)) (n : IndexNode) :
  n ∈ family b chunks → index_id n = id_ b.
Proof.
  unfold family. rewrite elem_of_app, list_elem_of_singleton.
  intros [Hn | ->]; [|done].
  induction chunks as [|ch chunks IH]; simpl in Hn.
  - by apply elem_of_nil in Hn.
  - apply elem_of_app in Hn as [Hn | Hn]; [|by apply IH].
    apply list_elem_of_fmap in Hn as (sn & -> & _). done.
Qed.

Lemma family_parent (b : TextNode) (chunks : list (list TextNode)) :
  from_text_node b (id_ b) ∈ family b chunks.
Proof. unfold family. apply elem_of_app. right. by apply list_elem_of_singleton. Qed.

(** A sub-chunk of [b] at the i-th granularity is in the family of [b]. *)
Lemma family_child (b : TextNode) (chunks : list (list TextNode))
    (ch : list TextNode) (sn : TextNode) :
  ch ∈ chunks → sn ∈ ch → from_text_node sn (id_ b) ∈ family b chunks.
Proof.
  intros Hch Hsn. unfold family. apply elem_of_app. left.
  induction chunks as [|c chunks IH]; [by apply elem_of_nil in Hch|].
  simpl. apply elem_of_app. apply elem_of_cons in Hch as [<- | Hch].
  - left. by apply (list_elem_of_fmap_2 (λ sn, from_text_node sn (id_ b))).
  - right. by apply IH.
Qed.

(** Every node of the flat list belongs to the family of one parent, and
    that family is in the list as a whole. *)
Lemma families_elem (bs : list TextNode) (gs : list (list (list TextNode)))
    (n : IndexNode) :
  n ∈ concat (zip_with family bs gs) →
  ∃ b chunks, b ∈ bs ∧ chunks ∈ gs ∧ n ∈ family b chunks
    ∧ ∀ m, m ∈ family b chunks → m ∈ concat (zip_with family bs gs).
Proof.
  revert gs. induction bs as [|b bs IH]; intros [|g gs] Hn; simpl in Hn;
    try by apply elem_of_nil in Hn.
  apply elem_of_app in Hn as [Hn | Hn].
  - exists b, g. repeat split; [left | left | done |].
    intros m Hm. simpl. apply elem_of_app. by left.
  - destruct (IH gs Hn) as (b' & chunks & Hb & Hg & Hn' & Hall).
    exists b', chunks. repeat split; [by right | by right | done |].
    intros m Hm. simpl. apply elem_of_app. right. by apply Hall.
Qed.

(** The family of every parent is in the flat list. *)
Lemma families_complete (bs : list TextNode) (gs : list (list (list TextNode)))
    (i : nat) (b : TextNode) (chunks : list (list TextNode)) (m : IndexNode) :
  bs !! i = Some b → gs !! i = Some chunks → m ∈ family b chunks →
  m ∈ concat (zip_with family bs gs).
Proof.
  revert gs i. induction bs as [|b0 bs IH]; intros [|g gs] [|i]; simpl; try done.
  - intros [= ->] [= ->] Hm. apply elem_of_app. by left.
  - intros Hb Hg Hm. apply elem_of_app. right. by apply (IH gs i).
Qed.

Lemma nodes_dict_snoc (l : list IndexNode) (n : IndexNode) :
  nodes_dict (l ++ [n]) = <[node_id n := n]> (nodes_dict l).
Proof. unfold nodes_dict. by rewrite foldl_app. Qed.

(** The dict comprehension binds the identifier of every node of the list,
    to a node of the list that has this identifier. *)
Lemma nodes_dict_lookup (l : list IndexNode) (n : IndexNode) :
  n ∈ l →
  ∃ p, nodes_dict l !! node_id n = Some p ∧ node_id p = node_id n ∧ p ∈ l.
Proof.
  induction l as [|x l IH] using rev_ind; intros Hn.
  - by apply elem_of_nil in Hn.
  - rewrite nodes_dict_snoc. destruct (decide (node_id x = node_id n)) as [E|E].
    + exists x. rewrite <-E, lookup_insert_eq. split_and!; [done..|].
      apply elem_of_app. right. by apply list_elem_of_singleton.
    + apply elem_of_app in Hn as [Hn | Hn].
      * destruct (IH Hn) as (p & Hp & Hid & Hin). exists p.
        rewrite lookup_insert_ne by done. split_and!; [done..|].
        apply elem_of_app. by left.
      * apply list_elem_of_singleton in Hn. by subst.
Qed.

Lemma nodes_dict_keys (l : list IndexNode) (k : string) (p : IndexNode) :
  nodes_dict l !! k = Some p → node_id p = k ∧ p ∈ l.
Proof.
  revert k p. induction l as [|x l IH] using rev_ind; intros k p.
  - unfold nodes_dict. simpl. by rewrite lookup_empty.
  - rewrite nodes_dict_snoc. destruct (decide (node_id x = k)) as [<-|E].
    + rewrite lookup_insert_eq. intros [= <-]. split; [done|].
      apply elem_of_app. right. by apply list_elem_of_singleton.
    + rewrite lookup_insert_ne by done. intros Hp.
      destruct (IH _ _ Hp). split; [done|]. apply elem_of_app. by left.
Qed.

(** Renaming depends on the positions only. *)
Lemma imap_set_id_content (g : nat → string) (l1 l2 : list TextNode) :
  content <$> l1 = content <$> l2 →
  imap (λ idx node, set_id node (g idx)) l1 = imap (λ idx node, set_id node (g idx)) l2.
Proof.
  revert g l2. induction l1 as [|x l1 IH]; intros g [|y l2]; simpl; try done.
  intros [= Hc Hl]. unfold set_id at 1 3. rewrite Hc. f_equal.
  apply (IH (g ∘ S)), Hl.
Qed.
End SmallToBigFacts.

Section SmallToBigClaims.
Context {NC : NodeContent} {FW : Framework}.
Import SmallToBig.

(** C1: whatever sub-splitters and parent chunks the loops of the
    constructor run on, every node of the flat index built from their result
    (each sub-chunk and each wrapped parent) is an IndexNode whose reference
    [index_id] is a key of the [node_dict] handed to the recursive retriever;
    the entry found there is a node of the index carrying that identifier.
    (The constructor itself does not get that far: see C3.) *)
Theorem references_resolve (ps : list SentenceSplitter) (base : list TextNode)
    (sc : ServiceContext) (w : World) (x : Node) :
  let linked := link_sub_nodes ps base w in
  let graph := (define_recursive_retriever linked.1 sc linked.2).1 in
  x ∈ index_nodes graph.1.1 →
  ∃ n p, x = NIndex n
    ∧ node_dict graph.1.2 !! index_id n = Some p
    ∧ node_id p = index_id n
    ∧ NIndex p ∈ index_nodes graph.1.1.
Proof.
  cbv zeta. destruct (link_sub_nodes_run ps base w) as (groups & Hall & _).
  rewrite define_recursive_retriever_run. simpl. rewrite Hall.
  intros Hx. apply list_elem_of_fmap in Hx as (n & -> & Hn).
  destruct (families_elem _ _ _ Hn) as (b & chunks & _ & _ & Hf & Hin').
  destruct (nodes_dict_lookup _ _ (Hin' _ (family_parent b chunks)))
    as (p & Hp & Hid & Hin).
  exists n, p. rewrite (family_index_id _ _ _ Hf). split_and!; try done.
  by apply list_elem_of_fmap_2.
Qed.

(** C2: the first statements of the constructor succeed, and the parent
    chunks they leave are the chunks of the size-1024 splitter, in its order,
    with the identifier of the i-th one set to node-i; at that point the
    parent splitter is the only splitter built; the sub-splitters, whichever
    they are, are applied to the chunks that already carry these identifiers;
    and two constructions whose splitter cuts the documents into the same
    chunks (whatever fresh identifiers it drew) get the same parent chunks
    with the same identifiers. *)
Theorem parent_ids_in_document_order (docs : list Document) (w1 w2 : World) :
  ∃ np base,
    (parent_chunks docs w1).1 = Ok (np, base)
    ∧ chunk_size np = 1024%Z
    ∧ content <$> base = content <$> (split_nodes 1024 docs (ext w1)).1
    ∧ (∀ i n, base !! i = Some n → id_ n = "node-" +:+ pretty i)
    ∧ splitter_sizes (built w1 (parent_chunks docs w1).2) = [1024%Z]
    ∧ (∀ ps w, ∃ groups,
         Forall2 (splits_of (chunk_size <$> ps)) base groups
         ∧ (link_sub_nodes ps base w).1 = concat (zip_with family base groups))
    ∧ (content <$> (split_nodes 1024 docs (ext w1)).1
         = content <$> (split_nodes 1024 docs (ext w2)).1 →
       ∃ np2, (parent_chunks docs w2).1 = Ok (np2, base)).
Proof.
  rewrite !parent_chunks_run. simpl.
  eexists _, _. split; [reflexivity|]. split_and!.
  - done.
  - unfold assign_ids. apply list_eq. intros i.
    rewrite !list_lookup_fmap, list_lookup_imap.
    by destruct (_ !! i).
  - intros i n Hn. by apply imap_set_id_lookup in Hn as [-> _].
  - by erewrite built_app by (simpl; reflexivity).
  - intros ps w. destruct (link_sub_nodes_run ps
      (assign_ids (split_nodes 1024 docs (ext w1)).1) w) as (groups & Hall & Hg & _).
    by exists groups.
  - intros Hc. eexists. do 2 f_equal. symmetry. by apply imap_set_id_content.
Qed.

(** C3: for every list of documents the constructor raises the ValueError
    of [SentenceSplitter(chunk_size=128)], whose chunk size is below the
    default chunk overlap of 200; it has then built four objects, of which
    the parent splitter of size 1024 is the only splitter, and no index. *)
Theorem small_to_big_init_raises (docs : list Document) (kwargs : gmap string Any)
    (w : World) :
  (__init__ docs kwargs w).1 = Raise (ValueError 200 128)
  ∧ length (built w (__init__ docs kwargs w).2) = 4
  ∧ splitter_sizes (built w (__init__ docs kwargs w).2) = [1024%Z]
  ∧ indexes (built w (__init__ docs kwargs w).2) = [].
Proof.
  rewrite small_to_big_init_run. simpl.
  erewrite built_app by (simpl; reflexivity). done.
Qed.
End SmallToBigClaims.

Section Accessors.
Context {NC : NodeContent} {FW : Framework}.

(** The entries of the accessor of the small-to-big pack. *)
Lemma small_to_big_modules_lookup (self : SmallToBig.RecursiveRetrieverSmallToBigPack)
    (w : World) (k : string) (v : obj) :
  (SmallToBig.get_modules self w).1.1 !! k = Some v →
  (k = "query_engine" ∧ v = OEngine (SmallToBig.query_engine self))
  ∨ (k = "recursive_retriever" ∧ v = ORecursive (SmallToBig.recursive_retriever self))
  ∨ (k = "llm" ∧ v = OLLM (SmallToBig.llm self))
  ∨ (k = "embed_model" ∧ v = OEmbedModel (SmallToBig.embed_model self))
  ∨ (k = "service_context" ∧ v = OServiceContext (SmallToBig.service_context self)).
Proof.
  unfold SmallToBig.get_modules, mret, M_ret. simpl.
  repeat (rewrite lookup_insert; case_decide;
          [intros [= <-]; subst k; tauto|]).
  by rewrite lookup_empty.
Qed.

Lemma small_to_big_no_base_retriever (self : SmallToBig.RecursiveRetrieverSmallToBigPack)
    (w : World) :
  ¬ exposes_vector_retriever (SmallToBig.get_modules self w).1.1
  ∧ ¬ exposes_lexical_retriever (SmallToBig.get_modules self w).1.1.
Proof.
  split; intros (k & o & i & n & Hk);
    apply small_to_big_modules_lookup in Hk;
    destruct Hk as [[_ ?]|[[_ ?]|[[_ ?]|[[_ ?]|[_ ?]]]]]; discriminate.
Qed.

(** C4, amended: the accessor of the small-to-big pack returns exactly five
    named handles, [query_engine], [recursive_retriever], [llm],
    [embed_model] and [service_context], each bound to the attribute of that
    name; none of them is a vector retriever or a lexical retriever; the pack
    and the world are left as they were. *)
Theorem small_to_big_get_modules (self : SmallToBig.RecursiveRetrieverSmallToBigPack)
    (w : World) :
  let d := (SmallToBig.get_modules self w).1.1 in
  dom d = {["query_engine"; "recursive_retriever"; "llm"; "embed_model";
            "service_context"]}
  ∧ size d = 5
  ∧ d !! "query_engine" = Some (OEngine (SmallToBig.query_engine self))
  ∧ d !! "recursive_retriever" = Some (ORecursive (SmallToBig.recursive_retriever self))
  ∧ d !! "llm" = Some (OLLM (SmallToBig.llm self))
  ∧ d !! "embed_model" = Some (OEmbedModel (SmallToBig.embed_model self))
  ∧ d !! "service_context" = Some (OServiceContext (SmallToBig.service_context self))
  ∧ ¬ exposes_vector_retriever d
  ∧ ¬ exposes_lexical_retriever d
  ∧ (SmallToBig.get_modules self w).1.2 = self
  ∧ (SmallToBig.get_modules self w).2 = w.
Proof.
  assert (Hdom : dom (SmallToBig.get_modules self w).1.1 =
            ({["query_engine"; "recursive_retriever"; "llm"; "embed_model";
               "service_context"]} : gset string)).
  { unfold SmallToBig.get_modules, mret, M_ret. simpl.
    rewrite !dom_insert_L, dom_empty_L. set_solver. }
  assert (Hsize : size (SmallToBig.get_modules self w).1.1 = 5).
  { rewrite <-(size_dom (D := gset string)), Hdom. reflexivity. }
  pose proof (small_to_big_no_base_retriever self w) as [Hv Hl].
  split_and!; done.
Qed.

(** C7: the accessor of the hybrid pack returns a mapping with exactly the
    four keys [vector_retriever], [bm25_retriever], [fusion_retriever] and
    [query_engine], each bound to the attribute of that name, and leaves the
    pack and the world as they were. *)
Theorem hybrid_get_modules (self : HybridFusion.HybridFusionRetrieverPack)
    (w : World) :
  let d := (HybridFusion.get_modules self w).1.1 in
  dom d = {["vector_retriever"; "bm25_retriever"; "fusion_retriever"; "query_engine"]}
  ∧ size d = 4
  ∧ d !! "vector_retriever" = Some (OBaseRetriever (HybridFusion.vector_retriever self))
  ∧ d !! "bm25_retriever" = Some (OBaseRetriever (HybridFusion.bm25_retriever self))
  ∧ d !! "fusion_retriever" = Some (OFusion (HybridFusion.fusion_retriever self))
  ∧ d !! "query_engine" = Some (OEngine (HybridFusion.query_engine self))
  ∧ (HybridFusion.get_modules self w).1.2 = self
  ∧ (HybridFusion.get_modules self w).2 = w.
Proof.
  assert (Hdom : dom (HybridFusion.get_modules self w).1.1 =
            ({["vector_retriever"; "bm25_retriever"; "fusion_retriever";
               "query_engine"]} : gset string)).
  { unfold HybridFusion.get_modules, mret, M_ret. simpl.
    rewrite !dom_insert_L, dom_empty_L. set_solver. }
  assert (Hsize : size (HybridFusion.get_modules self w).1.1 = 4).
  { rewrite <-(size_dom (D := gset string)), Hdom. reflexivity. }
  split_and!; done.
Qed.
End Accessors.

Section Retrieval.
Context {NC : NodeContent} {FW : Framework}.

Lemma base_retrieve_length (r : BaseRetriever) (q : string) :
  length (base_retrieve r q) ≤ Z.to_nat (similarity_top_k r).
Proof. destruct r; simpl; rewrite length_take; lia. Qed.

Lemma fusion_queries_objs (f : QueryFusionRetriever) (q : string) (w : World) :
  objs (fusion_queries f q w).2 = objs w
  ∧ next_oid (fusion_queries f q w).2 = next_oid w.
Proof.
  unfold fusion_queries. case_decide; [done|]. unfold call.
  by destruct (generate_queries q (fusion_num_queries f) (ext w)).
Qed.

Lemma fusion_retrieve_run (f : QueryFusionRetriever) (q : string) (w : World) :
  fusion_retrieve f q w =
    (take (Z.to_nat (fusion_top_k f))
       (fuse (fusion_mode f)
          (concat ((λ q', (λ r, base_retrieve r q') <$> fusion_retrievers f)
                     <$> (fusion_queries f q w).1))),
     (fusion_queries f q w).2).
Proof.
  unfold fusion_retrieve. rewrite bind_run. by destruct (fusion_queries f q w).
Qed.

Lemma fusion_retrieve_length (f : QueryFusionRetriever) (q : string) (w : World) :
  length (fusion_retrieve f q w).1 ≤ Z.to_nat (fusion_top_k f).
Proof. rewrite fusion_retrieve_run. simpl. rewrite length_take. lia. Qed.

Lemma fusion_retrieve_objs (f : QueryFusionRetriever) (q : string) (w : World) :
  objs (fusion_retrieve f q w).2 = objs w
  ∧ next_oid (fusion_retrieve f q w).2 = next_oid w.
Proof. rewrite fusion_retrieve_run. apply fusion_queries_objs. Qed.

Lemma engine_query_objs (e : RetrieverQueryEngine) (args : QueryArgs) (w : World) :
  objs (engine_query e args w).2 = objs w
  ∧ next_oid (engine_query e args w).2 = next_oid w.
Proof.
  unfold engine_query. rewrite bind_run.
  assert (Hr : objs (retriever_retrieve (engine_retriever e) (query_str args) w).2 = objs w
               ∧ next_oid (retriever_retrieve (engine_retriever e) (query_str args) w).2
                 = next_oid w).
  { destruct (engine_retriever e); simpl; [apply fusion_retrieve_objs | done]. }
  destruct (retriever_retrieve _ _ w) as [nodes w1]. simpl in Hr.
  destruct Hr as [<- <-]. unfold call.
  by destruct (synthesize (engine_service_context e) args nodes (ext w1)).
Qed.

Lemma hybrid_init_run (nodes : list TextNode) (c : Z) (mode : string)
    (vk bk fk nq : Z) (kwargs : gmap string Any) (w : World) :
  let n := next_oid w in
  let sc := {| sc_oid := n; sc_chunk_size := Some c; sc_llm := None;
               sc_embed_model := None |} in
  let idx := {| index_oid := 1 + n; index_nodes := NText <$> nodes;
                index_service_context := sc |} in
  let vr := VectorIndexRetriever (2 + n) idx vk in
  let br := BM25Retriever (3 + n) (docstore idx) bk in
  let fr := {| fusion_oid := 4 + n; fusion_retrievers := [vr; br];
               fusion_top_k := fk; fusion_num_queries := nq; fusion_mode := mode;
               fusion_use_async := true; fusion_verbose := true |} in
  let qe := {| engine_oid := 5 + n; engine_retriever := RFusion fr;
               engine_service_context := None |} in
  HybridFusion.__init__ nodes c mode vk bk fk nq kwargs w =
    ({| HybridFusion.vector_retriever := vr; HybridFusion.bm25_retriever := br;
        HybridFusion.fusion_retriever := fr; HybridFusion.query_engine := qe |},
     {| objs := objs w ++
          [OServiceContext sc; OIndex idx; OBaseRetriever vr; OBaseRetriever br;
           OFusion fr; OEngine qe];
        next_oid := 6 + n; ext := ext w |}).
Proof.
  unfold HybridFusion.__init__, mbind, M_bind, mret, M_ret. simpl.
  by rewrite <-!app_assoc.
Qed.
End Retrieval.

Section HybridClaims.
Context {NC : NodeContent} {FW : Framework}.
Import HybridFusion.

(** C5: the fusion retriever of the pack is configured with the
    [fusion_similarity_top_k] passed to the constructor, and with a
    non-negative value [retrieve] returns at most that many chunks, for every
    query and in every state of the external services. *)
Theorem hybrid_retrieve_at_most_top_k (nodes : list TextNode) (c : Z) (mode : string)
    (vk bk fk nq : Z) (kwargs : gmap string Any) (w : World) (q : string)
    (w1 : World) :
  (0 ≤ fk)%Z →
  fusion_top_k (fusion_retriever (__init__ nodes c mode vk bk fk nq kwargs w).1) = fk
  ∧ (Z.of_nat (length (retrieve (__init__ nodes c mode vk bk fk nq kwargs w).1 q w1).1.1)
       ≤ fk)%Z.
Proof.
  intros Hk. rewrite hybrid_init_run. simpl. split; [done|].
  unfold retrieve. rewrite bind_run. simpl.
  match goal with |- context [fusion_retrieve ?f q w1] =>
    pose proof (fusion_retrieve_length f q w1) as Hl;
    destruct (fusion_retrieve f q w1) as [r w2] end.
  simpl in *. lia.
Qed.

(** C6: the constructor builds one vector index, over the given chunks, one
    vector retriever on that index and one BM25 retriever on the docstore of
    that same index, then one fusion retriever over exactly these two, with
    the given mode, num_queries and fusion_similarity_top_k, and the query
    engine on top of the fusion retriever. *)
Theorem hybrid_wiring (nodes : list TextNode) (c : Z) (mode : string)
    (vk bk fk nq : Z) (kwargs : gmap string Any) (w : World) :
  let self := (__init__ nodes c mode vk bk fk nq kwargs w).1 in
  let new := built w (__init__ nodes c mode vk bk fk nq kwargs w).2 in
  ∃ index o1 o2,
    indexes new = [index]
    ∧ index_nodes index = NText <$> nodes
    ∧ vector_retriever self = VectorIndexRetriever o1 index vk
    ∧ bm25_retriever self = BM25Retriever o2 (docstore index) bk
    ∧ o1 ≠ o2
    ∧ vector_retrievers new = [vector_retriever self]
    ∧ lexical_retrievers new = [bm25_retriever self]
    ∧ fusion_retrievers_built new = [fusion_retriever self]
    ∧ fusion_retrievers (fusion_retriever self)
        = [vector_retriever self; bm25_retriever self]
    ∧ fusion_mode (fusion_retriever self) = mode
    ∧ fusion_num_queries (fusion_retriever self) = nq
    ∧ fusion_top_k (fusion_retriever self) = fk
    ∧ engine_retriever (query_engine self) = RFusion (fusion_retriever self).
Proof.
  rewrite hybrid_init_run. simpl.
  erewrite built_app by (simpl; reflexivity).
  eexists _, _, _. split_and!; try reflexivity. lia.
Qed.

(** C9: built with num_queries = 1, the fusion retriever makes no call to
    the query generator (the only query is the given one and the external
    state is untouched), and [retrieve] returns the same ranked list for the
    same query in any two states of the external services, in particular in
    two successive invocations. *)
Theorem hybrid_single_query_deterministic (nodes : list TextNode) (c : Z)
    (mode : string) (vk bk fk : Z) (kwargs : gmap string Any) (w : World)
    (q : string) (w1 w2 : World) :
  let self := (__init__ nodes c mode vk bk fk 1 kwargs w).1 in
  fusion_num_queries (fusion_retriever self) = 1%Z
  ∧ fusion_queries (fusion_retriever self) q w1 = ([q], w1)
  ∧ (retrieve self q w1).1.1 = (retrieve self q w2).1.1
  ∧ (retrieve (retrieve self q w1).1.2 q (retrieve self q w1).2).1.1
      = (retrieve self q w1).1.1.
Proof.
  rewrite hybrid_init_run. simpl. split_and!; reflexivity.
Qed.
End HybridClaims.

Section Frame.
Context {NC : NodeContent} {FW : Framework}.

Lemma hybrid_retrieve_self (self : HybridFusion.HybridFusionRetrieverPack)
    (q : string) (w : World) :
  (HybridFusion.retrieve self q w).1.2 = self
  ∧ objs (HybridFusion.retrieve self q w).2 = objs w
  ∧ next_oid (HybridFusion.retrieve self q w).2 = next_oid w.
Proof.
  unfold HybridFusion.retrieve. rewrite bind_run.
  pose proof (fusion_retrieve_objs (HybridFusion.fusion_retriever self) q w) as Ho.
  by destruct (fusion_retrieve _ q w).
Qed.

Lemma hybrid_run_self (self : HybridFusion.HybridFusionRetrieverPack)
    (args : QueryArgs) (w : World) :
  (HybridFusion.run self args w).1.2 = self
  ∧ objs (HybridFusion.run self args w).2 = objs w
  ∧ next_oid (HybridFusion.run self args w).2 = next_oid w.
Proof.
  unfold HybridFusion.run. rewrite bind_run.
  pose proof (engine_query_objs (HybridFusion.query_engine self) args w) as Ho.
  by destruct (engine_query _ args w).
Qed.

Lemma small_to_big_run_self (self : SmallToBig.RecursiveRetrieverSmallToBigPack)
    (args : QueryArgs) (w : World) :
  (SmallToBig.run self args w).1.2 = self
  ∧ objs (SmallToBig.run self args w).2 = objs w
  ∧ next_oid (SmallToBig.run self args w).2 = next_oid w.
Proof.
  unfold SmallToBig.run. rewrite bind_run.
  pose proof (engine_query_objs (SmallToBig.query_engine self) args w) as Ho.
  by destruct (engine_query _ args w).
Qed.

(** C8: [retrieve] and [run] of the hybrid pack and [run] of the
    small-to-big pack hand back the pack with every attribute as the
    constructor set it and build no object; so a call made after another one
    is the call the untouched pack would make in the same state of the
    external services. *)
Theorem calls_leave_pack_unchanged :
  (∀ (self : HybridFusion.HybridFusionRetrieverPack) q w,
      (HybridFusion.retrieve self q w).1.2 = self
      ∧ objs (HybridFusion.retrieve self q w).2 = objs w)
  ∧ (∀ (self : HybridFusion.HybridFusionRetrieverPack) args w,
      (HybridFusion.run self args w).1.2 = self
      ∧ objs (HybridFusion.run self args w).2 = objs w)
  ∧ (∀ (self : SmallToBig.RecursiveRetrieverSmallToBigPack) args w,
      (SmallToBig.run self args w).1.2 = self
      ∧ objs (SmallToBig.run self args w).2 = objs w)
  ∧ (∀ (self : HybridFusion.HybridFusionRetrieverPack) q1 q2 args w,
      let after_retrieve := HybridFusion.retrieve self q1 w in
      let after_run := HybridFusion.run self args w in
      HybridFusion.retrieve after_retrieve.1.2 q2 after_retrieve.2
        = HybridFusion.retrieve self q2 after_retrieve.2
      ∧ HybridFusion.run after_retrieve.1.2 args after_retrieve.2
        = HybridFusion.run self args after_retrieve.2
      ∧ HybridFusion.retrieve after_run.1.2 q2 after_run.2
        = HybridFusion.retrieve self q2 after_run.2)
  ∧ (∀ (self : SmallToBig.RecursiveRetrieverSmallToBigPack) args1 args2 w,
      let after_run := SmallToBig.run self args1 w in
      SmallToBig.run after_run.1.2 args2 after_run.2
        = SmallToBig.run self args2 after_run.2).
Proof.
  split_and!.
  - intros self q w. by destruct (hybrid_retrieve_self self q w) as (? & ? & _).
  - intros self args w. by destruct (hybrid_run_self self args w) as (? & ? & _).
  - intros self args w. by destruct (small_to_big_run_self self args w) as (? & ? & _).
  - intros self q1 q2 args w. simpl.
    destruct (hybrid_retrieve_self self q1 w) as (-> & _).
    by destruct (hybrid_run_self self args w) as (-> & _).
  - intros self args1 args2 w. simpl.
    by destruct (small_to_big_run_self self args1 w) as (-> & _).
Qed.

End Frame.

(** * The packs on the sample documents *)

Example sample_parent_chunks :
  (SmallToBig.parent_chunks (NC := Toy.text) (FW := Toy.services) Toy.docs Toy.w0).1
  = Ok ({| splitter_oid := 0; chunk_size := 1024 |},
        [Toy.doc "node-0" Toy.long_text; Toy.doc "node-1" "second document"]).
Proof. reflexivity. Qed.

Example sample_constructor_raises :
  (SmallToBig.__init__ (NC := Toy.text) (FW := Toy.services)
     Toy.docs Toy.override Toy.w0).1
  = Raise (ValueError 200 128).
Proof. reflexivity. Qed.

Example sample_index_size :
  length (index_nodes (SmallToBig.vector_index_chunk Toy.pack)) = 9.
Proof. reflexivity. Qed.

Example sample_references :
  index_id (NC := Toy.text)
    <$> omap (λ x, match x with NIndex n => Some n | NText _ => None end)
    (index_nodes (SmallToBig.vector_index_chunk Toy.pack))
  = replicate 6 "node-0" ++ replicate 3 "node-1".
Proof. reflexivity. Qed.

Example sample_hybrid_retrieve :
  length (HybridFusion.retrieve (NC := Toy.text) (FW := Toy.services)
            (HybridFusion.__init__defaults (NC := Toy.text) (FW := Toy.services)
               Toy.docs Toy.w0).1 "big chunks" Toy.w0).1.1 = 2.
Proof. reflexivity. Qed.

(** The first 256-character sub-chunk of the first sample parent is in the
    flat index built from the sample sub-splitters, and its reference
    resolves in the node mapping. *)
Lemma references_resolve_witness :
  let linked := SmallToBig.link_sub_nodes (NC := Toy.text) (FW := Toy.services)
                  Toy.parsers Toy.parents Toy.w6 in
  let graph := (SmallToBig.define_recursive_retriever linked.1 Toy.context linked.2).1 in
  let x := NIndex (from_text_node
                     (Toy.doc "uuid-2" (String.substring 0 256 Toy.long_text))
                     "node-0") in
  x ∈ index_nodes graph.1.1
  ∧ ∃ n p, x = NIndex n
      ∧ node_dict graph.1.2 !! index_id n = Some p
      ∧ node_id p = index_id n
      ∧ NIndex p ∈ index_nodes graph.1.1.
Proof.
  assert (Hx : NIndex (from_text_node
                         (Toy.doc "uuid-2" (String.substring 0 256 Toy.long_text))
                         "node-0")
               ∈ index_nodes
                   (SmallToBig.define_recursive_retriever
                      (SmallToBig.link_sub_nodes (NC := Toy.text) (FW := Toy.services)
                         Toy.parsers Toy.parents Toy.w6).1
                      Toy.context
                      (SmallToBig.link_sub_nodes (NC := Toy.text) (FW := Toy.services)
                         Toy.parsers Toy.parents Toy.w6).2).1.1.1).
  { apply list_elem_of_lookup. exists 0. reflexivity. }
  split; [exact Hx|].
  exact (references_resolve (NC := Toy.text) (FW := Toy.services)
           Toy.parsers Toy.parents Toy.context Toy.w6 _ Hx).
Defined.

(** Two runs on the sample, the identifier generator of the second one
    seven draws ahead: same parent chunks, same identifiers. *)
Lemma parent_ids_in_document_order_witness :
  let w7 := @Build_World Toy.text Toy.services [] 0 7 in
  content <$> (split_nodes (NC := Toy.text) (Framework := Toy.services)
                 1024 Toy.docs (ext Toy.w0)).1
    = content <$> (split_nodes (NC := Toy.text) (Framework := Toy.services)
                     1024 Toy.docs (ext w7)).1
  ∧ ∃ base np1 np2,
      (SmallToBig.parent_chunks (NC := Toy.text) (FW := Toy.services)
         Toy.docs Toy.w0).1 = Ok (np1, base)
      ∧ (SmallToBig.parent_chunks (NC := Toy.text) (FW := Toy.services)
           Toy.docs w7).1 = Ok (np2, base).
Proof.
  split; [reflexivity|].
  destruct (parent_ids_in_document_order (NC := Toy.text) (FW := Toy.services)
              Toy.docs Toy.w0 (@Build_World Toy.text Toy.services [] 0 7))
    as (np1 & base & Hok & _ & _ & _ & _ & _ & Hsame).
  destruct (Hsame eq_refl) as [np2 Hok2].
  by exists base, np1, np2.
Defined.

(** The hybrid pack with its default parameters on the sample. *)
Lemma hybrid_retrieve_at_most_top_k_witness :
  (0 ≤ 2)%Z
  ∧ fusion_top_k (HybridFusion.fusion_retriever
        (HybridFusion.__init__ (NC := Toy.text) (FW := Toy.services)
           Toy.docs 256 "reciprocal_rerank" 2 2 2 4 ∅ Toy.w0).1) = 2%Z
  ∧ (Z.of_nat (length (HybridFusion.retrieve (NC := Toy.text) (FW := Toy.services)
        (HybridFusion.__init__ (NC := Toy.text) (FW := Toy.services)
           Toy.docs 256 "reciprocal_rerank" 2 2 2 4 ∅ Toy.w0).1
        "big chunks" Toy.w0).1.1) ≤ 2)%Z.
Proof.
  split; [lia|].
  apply (hybrid_retrieve_at_most_top_k (NC := Toy.text) (FW := Toy.services)
           Toy.docs 256 "reciprocal_rerank" 2 2 2 4 ∅ Toy.w0 "big chunks" Toy.w0).
  lia.
Defined.

(** C4 as worded fails on the sample pack: its accessor hands out no
    vector retriever (and no lexical retriever). *)
Lemma small_to_big_modules_counterexample :
  ¬ modules_as_worded Toy.pack
      (SmallToBig.get_modules (NC := Toy.text) (FW := Toy.services)
         Toy.pack Toy.w6).1.1.
Proof.
  intros (Hv & _). revert Hv.
  apply (small_to_big_no_base_retriever (NC := Toy.text) (FW := Toy.services)).
Qed.

(** * Further properties *)

Section NodeDict.
Context {NC : NodeContent} {FW : Framework}.
Import SmallToBig.

Lemma assign_ids_lookup (l : list TextNode) (i : nat) (b : TextNode) :
  assign_ids l !! i = Some b → id_ b = "node-" +:+ pretty i.
Proof. intros Hb. by apply imap_set_id_lookup in Hb as [-> _]. Qed.

Lemma node_id_inj (i j : nat) :
  "node-" +:+ pretty i = "node-" +:+ pretty j → i = j.
Proof. intros Hij. by apply (inj (String.app "node-")), (inj pretty) in Hij. Qed.

Lemma assign_ids_NoDup (l : list TextNode) : NoDup (id_ <$> assign_ids l).
Proof.
  apply NoDup_alt. intros i j s Hi Hj.
  apply list_lookup_fmap_Some in Hi as (bi & -> & Hi).
  apply list_lookup_fmap_Some in Hj as (bj & Hs & Hj).
  apply assign_ids_lookup in Hi, Hj. rewrite Hi, Hj in Hs.
  by apply node_id_inj.
Qed.

(** X1: the first statements of the constructor succeed, and the
    identifiers they write on the parent chunks are pairwise distinct,
    whatever the splitter returned. *)
Theorem parent_ids_distinct (docs : list Document) (w : World) :
  ∃ np base,
    (parent_chunks docs w).1 = Ok (np, base) ∧ NoDup (id_ <$> base).
Proof.
  rewrite parent_chunks_run. simpl. eexists _, _. split; [reflexivity|].
  apply assign_ids_NoDup.
Qed.

Lemma nodes_dict_dom (l : list IndexNode) :
  dom (nodes_dict l) = list_to_set (node_id <$> l).
Proof.
  induction l as [|x l IH] using rev_ind.
  - unfold nodes_dict. simpl. by rewrite dom_empty_L.
  - rewrite nodes_dict_snoc, dom_insert_L, IH, fmap_app, list_to_set_app_L.
    simpl. by rewrite (right_id_L ∅ (∪)), (comm_L (∪)).
Qed.

Lemma nodes_dict_size (l : list IndexNode) : size (nodes_dict l) ≤ length l.
Proof.
  induction l as [|x l IH] using rev_ind.
  - unfold nodes_dict. simpl. by rewrite map_size_empty.
  - rewrite nodes_dict_snoc, length_app. simpl.
    destruct (nodes_dict l !! node_id x) as [y|] eqn:E.
    + rewrite map_size_insert_Some by (by exists y). lia.
    + rewrite map_size_insert_None by done. lia.
Qed.

(** X2: the mapping built by the dict comprehension from any list of nodes
    has one key per distinct [node_id] of the list and no other key; every
    entry is a node of the list filed under its own [node_id]; so the mapping
    never has more entries than the list has nodes. *)
Theorem node_dict_entries (all_nodes : list IndexNode) :
  dom (nodes_dict all_nodes) = list_to_set (node_id <$> all_nodes)
  ∧ (∀ k p, nodes_dict all_nodes !! k = Some p → node_id p = k ∧ p ∈ all_nodes)
  ∧ size (nodes_dict all_nodes) ≤ length all_nodes.
Proof.
  split_and!; [apply nodes_dict_dom | apply nodes_dict_keys | apply nodes_dict_size].
Qed.

(** X3: when several nodes share a [node_id], the dict comprehension keeps
    the last of them: a node that no later node of the list shadows is the
    entry found under its identifier. *)
Theorem nodes_dict_last_wins (l1 l2 : list IndexNode) (n : IndexNode) :
  (∀ m, m ∈ l2 → node_id m ≠ node_id n) →
  nodes_dict (l1 ++ n :: l2) !! node_id n = Some n.
Proof.
  induction l2 as [|x l2 IH] using rev_ind; intros Hl2.
  - rewrite nodes_dict_snoc. apply lookup_insert_eq.
  - rewrite app_comm_cons, app_assoc, nodes_dict_snoc.
    rewrite lookup_insert_ne.
    + apply IH.
      intros m Hm. apply Hl2, elem_of_app. by left.
    + apply Hl2, elem_of_app. right. by apply list_elem_of_singleton.
Qed.
End NodeDict.

Section ParentResolution.
Context {NC : NodeContent} {FW : Framework}.
Import SmallToBig.

Lemma family_elem_inv (b : TextNode) (chunks : list (list TextNode)) (n : IndexNode) :
  n ∈ family b chunks →
  n = from_text_node b (id_ b)
  ∨ ∃ ch sn, ch ∈ chunks ∧ sn ∈ ch ∧ n = from_text_node sn (id_ b).
Proof.
  unfold family. rewrite elem_of_app, list_elem_of_singleton.
  intros [Hn | ->]; [right | by left].
  induction chunks as [|ch chunks IH]; simpl in Hn.
  - by apply elem_of_nil in Hn.
  - apply elem_of_app in Hn as [Hn | Hn].
    + apply list_elem_of_fmap in Hn as (sn & -> & Hsn).
      exists ch, sn. split_and!; [left | done | done].
    + destruct (IH Hn) as (ch' & sn & Hch & Hsn & ->).
      exists ch', sn. split_and!; [by right | done | done].
Qed.

Lemma families_elem_lookup (bs : list TextNode) (gs : list (list (list TextNode)))
    (n : IndexNode) :
  n ∈ concat (zip_with family bs gs) →
  ∃ j b chunks, bs !! j = Some b ∧ gs !! j = Some chunks ∧ n ∈ family b chunks.
Proof.
  revert gs. induction bs as [|b bs IH]; intros [|g gs] Hn; simpl in Hn;
    try by apply elem_of_nil in Hn.
  apply elem_of_app in Hn as [Hn | Hn].
  - by exists 0, b, g.
  - destruct (IH gs Hn) as (j & b' & chunks & Hb & Hg & Hn').
    by exists (S j), b', chunks.
Qed.

Lemma splits_of_elem (cs : list Z) (b : TextNode) (chunks : list (list TextNode))
    (ch : list TextNode) :
  splits_of cs b chunks → ch ∈ chunks →
  ∃ c e, c ∈ cs ∧ ch = (split_nodes c [b] e).1.
Proof.
  intros Hs Hch. apply list_elem_of_lookup in Hch as [k Hk].
  destruct (Forall2_lookup_r _ _ _ _ _ Hs Hk) as (c & Hc & e & ->).
  exists c, e. split; [|done]. apply list_elem_of_lookup. by exists k.
Qed.

(** The entry of a key whose only bearer in the list is [p]. *)
Lemma nodes_dict_unique (l : list IndexNode) (p : IndexNode) :
  p ∈ l → (∀ m, m ∈ l → node_id m = node_id p → m = p) →
  nodes_dict l !! node_id p = Some p.
Proof.
  intros Hp Hu. destruct (nodes_dict_lookup l p Hp) as (p' & Hl & Hid & Hin).
  by rewrite Hl, (Hu p' Hin Hid).
Qed.

(** X4: if the sub-splitters the loops run with never hand out an
    identifier of the form node-i, then the mapping built from the result of
    the loops files the i-th parent chunk itself under node-i, and the
    reference of every node of that result (sub-chunk or parent) is bound to
    the wrapped parent chunk it was cut from. *)
Theorem references_resolve_to_parent (ps : list SentenceSplitter)
    (chunks1024 : list TextNode) (w : World) :
  (∀ c b e sn (i : nat),
     c ∈ chunk_size <$> ps →
     sn ∈ (split_nodes c [b] e).1 → id_ sn ≠ "node-" +:+ pretty i) →
  let base := assign_ids chunks1024 in
  let all_nodes := (link_sub_nodes ps base w).1 in
  (∀ i b, base !! i = Some b →
     nodes_dict all_nodes !! ("node-" +:+ pretty i) = Some (from_text_node b (id_ b)))
  ∧ (∀ n, n ∈ all_nodes →
       ∃ i b, base !! i = Some b
         ∧ index_id n = id_ b
         ∧ (text_node n = b ∨ ∃ c e, c ∈ chunk_size <$> ps
                                    ∧ text_node n ∈ (split_nodes c [b] e).1)
         ∧ nodes_dict all_nodes !! index_id n = Some (from_text_node b (id_ b))).
Proof.
  intros Hfresh base all_nodes. subst all_nodes.
  destruct (link_sub_nodes_run ps base w) as (groups & -> & Hg & _).
  assert (Hparent : ∀ i b, base !! i = Some b →
            nodes_dict (concat (zip_with family base groups)) !! ("node-" +:+ pretty i)
              = Some (from_text_node b (id_ b))).
  { intros i b Hb. pose proof (assign_ids_lookup _ _ _ Hb) as Hid.
    destruct (Forall2_lookup_l _ _ _ _ _ Hg Hb) as (chunks & Hc & _).
    rewrite <-Hid. apply (nodes_dict_unique _ (from_text_node b (id_ b))).
    - apply (families_complete _ _ _ _ _ _ Hb Hc), family_parent.
    - intros m Hm Hmid. unfold node_id in Hmid. simpl in Hmid.
      apply families_elem_lookup in Hm as (j & b' & chunks' & Hb' & Hc' & Hm).
      pose proof (assign_ids_lookup _ _ _ Hb') as Hid'.
      apply family_elem_inv in Hm as [-> | (ch & sn & Hch & Hsn & ->)]; simpl in Hmid.
      + rewrite Hid, Hid' in Hmid. apply node_id_inj in Hmid. subst j.
        rewrite Hb in Hb'. by injection Hb' as <-.
      + pose proof (Forall2_lookup_lr _ _ _ _ _ _ Hg Hb' Hc') as Hs.
        destruct (splits_of_elem _ _ _ _ Hs Hch) as (c & e & Hcs & ->).
        rewrite Hid in Hmid. by destruct (Hfresh _ _ _ _ i Hcs Hsn). }
  split; [exact Hparent|].
  intros n Hn.
  apply families_elem_lookup in Hn as (j & b & chunks & Hb & Hc & Hn).
  pose proof (Forall2_lookup_lr _ _ _ _ _ _ Hg Hb Hc) as Hs.
  exists j, b. rewrite (family_index_id _ _ _ Hn).
  split_and!; [done | done | |].
  - apply family_elem_inv in Hn as [-> | (ch & sn & Hch & Hsn & ->)]; [by left|].
    right. destruct (splits_of_elem _ _ _ _ Hs Hch) as (c & e & Hcs & ->).
    by exists c, e.
  - pose proof (Hparent _ _ Hb) as Hp.
    by rewrite <-(assign_ids_lookup _ _ _ Hb) in Hp.
Qed.
End ParentResolution.

Section IndexSize.
Context {NC : NodeContent} {FW : Framework}.
Import SmallToBig.

Lemma family_length (b : TextNode) (chunks : list (list TextNode)) :
  length (family b chunks) = S (length (concat chunks)).
Proof.
  unfold family. rewrite length_app. simpl. rewrite Nat.add_1_r. f_equal.
  induction chunks as [|ch chunks IH]; simpl; [done|].
  rewrite !length_app, length_fmap. f_equal. exact IH.
Qed.

Lemma families_length (bs : list TextNode) (gs : list (list (list TextNode)))
    (k : nat) :
  Forall2 (λ b chunks, k ≤ length (concat chunks)) bs gs →
  S k * length bs ≤ length (concat (zip_with family bs gs)).
Proof.
  induction 1 as [|b chunks bs gs Hk _ IH]; simpl; [lia|].
  rewrite length_app, family_length. lia.
Qed.

Lemma splits_of_nonempty (cs : list Z) (b : TextNode)
    (chunks : list (list TextNode)) :
  splits_of cs b chunks →
  (∀ c e, c ∈ cs → (split_nodes c [b] e).1 ≠ []) →
  length cs ≤ length (concat chunks).
Proof.
  induction 1 as [|c ch cs chunks (e & ->) _ IH]; intros Hne; simpl; [lia|].
  rewrite length_app.
  assert (1 ≤ length (split_nodes c [b] e).1).
  { destruct (split_nodes c [b] e).1 eqn:E; [|simpl; lia].
    destruct (Hne c e); [left | done]. }
  assert (length cs ≤ length (concat chunks)).
  { apply IH. intros c' e' Hc'. apply Hne. by right. }
  lia.
Qed.

(** X5: the loops produce at least one node per parent chunk; their result
    is empty exactly when there is no parent chunk, and so is the mapping
    built from it. *)
Theorem index_empty_iff_no_parent (ps : list SentenceSplitter)
    (base : list TextNode) (w : World) :
  let all_nodes := (link_sub_nodes ps base w).1 in
  length base ≤ length all_nodes
  ∧ (all_nodes = [] ↔ base = [])
  ∧ (nodes_dict all_nodes = ∅ ↔ base = []).
Proof.
  cbv zeta. destruct (link_sub_nodes_run ps base w) as (groups & -> & Hg & _).
  assert (Hlen : length base ≤ length (concat (zip_with family base groups))).
  { pose proof (families_length base groups 0) as Hl. simpl in Hl.
    rewrite Nat.add_0_r in Hl. apply Hl.
    eapply Forall2_impl; [exact Hg|]. intros; lia. }
  assert (Hall : concat (zip_with family base groups) = [] ↔ base = []).
  { split.
    - intros Ha. rewrite Ha in Hlen. simpl in Hlen.
      apply nil_length_inv. lia.
    - by intros ->. }
  split_and!; [done | done |].
  rewrite <-Hall. split.
  - intros Hd. destruct (concat (zip_with family base groups)) as [|n l] eqn:E;
      [done|].
    destruct (nodes_dict_lookup (n :: l) n) as (p & Hp & _); [left|].
    rewrite Hd, lookup_empty in Hp. done.
  - by intros ->.
Qed.

(** X6: if each sub-splitter returns at least one chunk for each parent
    chunk, the loops produce, per parent chunk, at least one node per
    sub-splitter and the parent itself: four with three sub-splitters. *)
Theorem index_nodes_per_parent (ps : list SentenceSplitter)
    (base : list TextNode) (w : World) :
  (∀ p b e, p ∈ ps → b ∈ base → (split_nodes (chunk_size p) [b] e).1 ≠ []) →
  S (length ps) * length base ≤ length (link_sub_nodes ps base w).1.
Proof.
  intros Hne. destruct (link_sub_nodes_run ps base w) as (groups & -> & Hg & _).
  apply families_length.
  apply Forall2_same_length_lookup. split; [by eapply Forall2_length|].
  intros i b chunks Hb Hc.
  pose proof (Forall2_lookup_lr _ _ _ _ _ _ Hg Hb Hc) as Hs.
  rewrite <-(length_fmap chunk_size ps).
  apply (splits_of_nonempty _ b); [done|].
  intros c e Hcs. apply list_elem_of_fmap in Hcs as (p & -> & Hp).
  apply Hne; [done|]. apply list_elem_of_lookup. by exists i.
Qed.
End IndexSize.

Section ReferenceTargets.
Context {NC : NodeContent} {FW : Framework}.
Import SmallToBig.

(** X10: the references carried by the nodes the loops produce are exactly
    the identifiers of the parent chunks: every node points to a parent, every
    parent is pointed to, and there are as many distinct reference targets as
    parent chunks. *)
Theorem references_are_parent_ids (ps : list SentenceSplitter)
    (chunks1024 : list TextNode) (w : World) :
  let base := assign_ids chunks1024 in
  let all_nodes := (link_sub_nodes ps base w).1 in
  list_to_set (index_id <$> all_nodes) =@{gset string} list_to_set (id_ <$> base)
  ∧ size (list_to_set (index_id <$> all_nodes) : gset string) = length base.
Proof.
  intros base all_nodes. subst all_nodes.
  destruct (link_sub_nodes_run ps base w) as (groups & -> & Hg & _).
  assert (Heq : list_to_set (index_id <$> concat (zip_with family base groups))
                  =@{gset string} list_to_set (id_ <$> base)).
  { apply set_eq. intros s. rewrite !elem_of_list_to_set, !list_elem_of_fmap. split.
    - intros (n & -> & Hn).
      apply families_elem_lookup in Hn as (j & b & chunks & Hb & _ & Hn).
      exists b. split; [by eapply family_index_id|].
      apply list_elem_of_lookup. by exists j.
    - intros (b & -> & Hb). apply list_elem_of_lookup in Hb as [j Hb].
      destruct (Forall2_lookup_l _ _ _ _ _ Hg Hb) as (chunks & Hc & _).
      exists (from_text_node b (id_ b)). split; [done|].
      apply (families_complete _ _ _ _ _ _ Hb Hc), family_parent. }
  split; [exact Heq|].
  rewrite Heq, size_list_to_set by apply assign_ids_NoDup. apply length_fmap.
Qed.
End ReferenceTargets.

Section Handles.
Context {NC : NodeContent} {FW : Framework}.

(** X7: when the small-to-big constructor raises, it has called the
    size-1024 splitter on the documents and built exactly four objects: the
    parent splitter, the embedding model "local:BAAI/bge-small-en", the LLM
    "gpt-3.5-turbo" and a service context holding both, without a chunk size. *)
Theorem small_to_big_built_before_failure (docs : list Document)
    (kwargs : gmap string Any) (w : World) :
  ∃ np em lm sc,
    built w (SmallToBig.__init__ docs kwargs w).2
      = [OSplitter np; OEmbedModel em; OLLM lm; OServiceContext sc]
    ∧ chunk_size np = 1024%Z
    ∧ embed_name em = "local:BAAI/bge-small-en"
    ∧ llm_model lm = "gpt-3.5-turbo"
    ∧ sc_embed_model sc = Some em
    ∧ sc_llm sc = Some lm
    ∧ sc_chunk_size sc = None
    ∧ ext (SmallToBig.__init__ docs kwargs w).2 = (split_nodes 1024 docs (ext w)).2.
Proof.
  rewrite small_to_big_init_run. simpl.
  erewrite built_app by (simpl; reflexivity).
  eexists _, _, _, _. split_and!; reflexivity.
Qed.

(** The entries of the accessor of the hybrid pack. *)
Lemma hybrid_modules_lookup (self : HybridFusion.HybridFusionRetrieverPack)
    (w : World) (k : string) (v : obj) :
  (HybridFusion.get_modules self w).1.1 !! k = Some v →
  (k = "vector_retriever" ∧ v = OBaseRetriever (HybridFusion.vector_retriever self))
  ∨ (k = "bm25_retriever" ∧ v = OBaseRetriever (HybridFusion.bm25_retriever self))
  ∨ (k = "fusion_retriever" ∧ v = OFusion (HybridFusion.fusion_retriever self))
  ∨ (k = "query_engine" ∧ v = OEngine (HybridFusion.query_engine self)).
Proof.
  unfold HybridFusion.get_modules, mret, M_ret. simpl.
  repeat (rewrite lookup_insert; case_decide;
          [intros [= <-]; subst k; tauto|]).
  by rewrite lookup_empty.
Qed.

(** X9: called on a freshly constructed hybrid pack, the accessor hands
    out only objects that the constructor built, and they hang together: the
    fusion retriever handle fuses exactly the vector and the BM25 retriever
    handles, in this order, and the query engine handle runs on the fusion
    retriever handle, with no service context of its own; the chunk size went
    to the service context of the index only. *)
Theorem hybrid_modules_after_init (nodes : list TextNode) (c : Z) (mode : string)
    (vk bk fk nq : Z) (kwargs : gmap string Any) (w : World) :
  let self := (HybridFusion.__init__ nodes c mode vk bk fk nq kwargs w).1 in
  let w' := (HybridFusion.__init__ nodes c mode vk bk fk nq kwargs w).2 in
  let d := (HybridFusion.get_modules self w').1.1 in
  (∀ k v, d !! k = Some v → v ∈ built w w')
  ∧ ∃ vr br fr qe o index,
      d !! "vector_retriever" = Some (OBaseRetriever vr)
      ∧ d !! "bm25_retriever" = Some (OBaseRetriever br)
      ∧ d !! "fusion_retriever" = Some (OFusion fr)
      ∧ d !! "query_engine" = Some (OEngine qe)
      ∧ fusion_retrievers fr = [vr; br]
      ∧ engine_retriever qe = RFusion fr
      ∧ engine_service_context qe = None
      ∧ vr = VectorIndexRetriever o index vk
      ∧ sc_chunk_size (index_service_context index) = Some c
      ∧ sc_llm (index_service_context index) = None
      ∧ sc_embed_model (index_service_context index) = None.
Proof.
  intros self w' d. subst d self w'. rewrite hybrid_init_run. cbn [fst snd]. split.
  - intros k v Hk. apply hybrid_modules_lookup in Hk.
    erewrite built_app by (cbn [objs]; reflexivity).
    destruct Hk as [[_ ->]|[[_ ->]|[[_ ->]|[_ ->]]]];
      apply list_elem_of_lookup;
      [by exists 2 | by exists 3 | by exists 4 | by exists 5].
  - eexists _, _, _, _, _, _. split_and!; reflexivity.
Qed.
End Handles.

(** A parent wrapped after a sub-chunk that carries the same identifier,
    and before one that carries another: the parent is the entry. *)
Lemma nodes_dict_last_wins_witness :
  let parent := from_text_node (Toy.doc "node-0" "big") "node-0" in
  let same := from_text_node (Toy.doc "node-0" "b") "node-0" in
  let other := from_text_node (Toy.doc "uuid-9" "g") "node-0" in
  (∀ m, m ∈ [other] → node_id m ≠ node_id parent)
  ∧ SmallToBig.nodes_dict ([same] ++ parent :: [other]) !! node_id parent = Some parent.
Proof.
  assert (Hno : ∀ m, m ∈ [from_text_node (Toy.doc "uuid-9" "g") "node-0"] →
            node_id m ≠ node_id (from_text_node (Toy.doc "node-0" "big") "node-0")).
  { intros m Hm. apply list_elem_of_singleton in Hm as ->. discriminate. }
  split; [exact Hno|].
  exact (nodes_dict_last_wins (NC := Toy.text)
           [from_text_node (Toy.doc "node-0" "b") "node-0"]
           [from_text_node (Toy.doc "uuid-9" "g") "node-0"]
           (from_text_node (Toy.doc "node-0" "big") "node-0") Hno).
Defined.

(** The identifiers of the sample splitter start with uuid-. *)
Lemma toy_ids_fresh (c : Z) (b : @Document Toy.text) (e : nat)
    (sn : @TextNode Toy.text) (i : nat) :
  sn ∈ (split_nodes (NC := Toy.text) (Framework := Toy.services) c [b] e).1 →
  id_ sn ≠ "node-" +:+ pretty i.
Proof.
  simpl. unfold Toy.split. simpl. intros Hsn.
  apply list_elem_of_lookup in Hsn as [k Hk].
  rewrite list_lookup_imap in Hk.
  destruct (_ !! k); simpl in Hk; [|done].
  injection Hk as <-. simpl. discriminate.
Qed.

Lemma references_resolve_to_parent_witness :
  (∀ c b e sn (i : nat),
     c ∈ chunk_size <$> Toy.parsers →
     sn ∈ (split_nodes (NC := Toy.text) (Framework := Toy.services) c [b] e).1 →
     id_ sn ≠ "node-" +:+ pretty i)
  ∧ SmallToBig.nodes_dict
      (SmallToBig.link_sub_nodes (NC := Toy.text) (FW := Toy.services)
         Toy.parsers Toy.parents Toy.w6).1 !! ("node-" +:+ pretty 1)
    = Some (from_text_node (Toy.doc "node-1" "second document") "node-1").
Proof.
  assert (Hfresh : ∀ c b e sn (i : nat),
            c ∈ chunk_size <$> Toy.parsers →
            sn ∈ (split_nodes (NC := Toy.text) (Framework := Toy.services) c [b] e).1 →
            id_ sn ≠ "node-" +:+ pretty i).
  { intros c b e sn i _. apply toy_ids_fresh. }
  split; [exact Hfresh|].
  destruct (references_resolve_to_parent (NC := Toy.text) (FW := Toy.services)
              Toy.parsers [Toy.doc "uuid-0" Toy.long_text; Toy.doc "uuid-1" "second document"]
              Toy.w6 Hfresh) as [Hparent _].
  exact (Hparent 1 (Toy.doc "node-1" "second document") eq_refl).
Defined.

(** Both parents of the sample have text, so every sub-split has a chunk. *)
Lemma toy_splits_nonempty (p : SentenceSplitter) (b : @Document Toy.text) (e : nat) :
  p ∈ Toy.parsers → b ∈ Toy.parents →
  (split_nodes (NC := Toy.text) (Framework := Toy.services) (chunk_size p) [b] e).1 ≠ [].
Proof.
  intros Hp Hb Hnil. apply (f_equal length) in Hnil.
  simpl in Hnil. unfold Toy.split in Hnil. simpl in Hnil.
  rewrite length_imap in Hnil.
  apply list_elem_of_lookup in Hb as [[|[|?]] Hb]; vm_compute in Hb;
    try discriminate; injection Hb as <-;
    apply list_elem_of_lookup in Hp as [[|[|?]] Hp]; vm_compute in Hp;
    try discriminate; injection Hp as <-; vm_compute in Hnil; discriminate.
Qed.

Lemma index_nodes_per_parent_witness :
  (∀ p b e, p ∈ Toy.parsers → b ∈ Toy.parents →
     (split_nodes (NC := Toy.text) (Framework := Toy.services)
        (chunk_size p) [b] e).1 ≠ [])
  ∧ S (length Toy.parsers) * length Toy.parents
    ≤ length (SmallToBig.link_sub_nodes (NC := Toy.text) (FW := Toy.services)
                Toy.parsers Toy.parents Toy.w6).1.
Proof.
  split; [exact toy_splits_nonempty|].
  exact (index_nodes_per_parent (NC := Toy.text) (FW := Toy.services)
           Toy.parsers Toy.parents Toy.w6 toy_splits_nonempty).
Defined.
